(** * perfix: the image inverter of [invert.py]

    [invert_image] opens an image with Pillow, normalises its mode,
    inverts the colour bands, saves the result and reports on standard
    output.  The development embeds the function together with the part of
    Pillow it calls:

    - an image is a mode, a size and one plane of 8-bit samples per band;
      the modes are the 8-bit grey and colour modes with and without alpha
      ("L", "LA", "RGB", "RGBA"); Pillow's palette, bilevel, CMYK and wide
      modes go through the same [convert("RGB")] call and are not modelled;
    - Pillow's functions are fallible: they return a [result];
    - [save] picks the encoder by the extension of the path: PNG keeps
      every sample of these modes, and what Pillow's other encoders do
      (refuse the extension or the mode, change samples) is part of the
      world;
    - the program runs in a [world] (file system and standard output) and
      ends by returning, by raising, or by [sys.exit]. *)

From Stdlib Require Import ZArith Ascii.
From stdpp Require Import gmap strings list.

Local Open Scope Z_scope.

(** ** Exceptions and results *)

(** The exception classes that can reach the handlers of [invert_image].
    All of them derive from [Exception]; [FileNotFoundError] is the only one
    the first handler names. *)
Inductive exc_class :=
  | FileNotFoundError
  | PermissionError
  | UnidentifiedImageError
  | OSError
  | ValueError.

Global Instance exc_class_eq_dec : EqDecision exc_class.
Proof. solve_decision. Defined.

(** An exception object: its class and [str(e)]. *)
Record exception := mkExc { exc_type : exc_class; exc_str : string }.

Inductive result (A : Type) :=
  | Ok (a : A)
  | Raise (e : exception).
Arguments Ok {A} a.
Arguments Raise {A} e.

Definition rbind {A B} (r : result A) (k : A -> result B) : result B :=
  match r with
  | Ok a => k a
  | Raise e => Raise e
  end.

Declare Scope result_scope.
Delimit Scope result_scope with result.
Notation "x <- r ;; k" := (rbind r (fun x => k))
  (at level 100, r at next level, right associativity) : result_scope.

(** ** Images *)

Inductive Mode := L | LA | RGB | RGBA.

Global Instance Mode_eq_dec : EqDecision Mode.
Proof. solve_decision. Defined.

Definition mode_name (m : Mode) : string :=
  match m with
  | L => "L"
  | LA => "LA"
  | RGB => "RGB"
  | RGBA => "RGBA"
  end.

(** [Image.getmodebands] *)
Definition getmodebands (m : Mode) : nat :=
  match m with
  | L => 1
  | LA => 2
  | RGB => 3
  | RGBA => 4
  end%nat.

(** [m in modes] on a tuple of mode names. *)
Definition mode_in (m : Mode) (modes : list Mode) : bool :=
  bool_decide (m ∈ modes).

(** One band: the samples of a plane in row-major order. *)
Definition band := list Z.

Module Image.

(** [mode] and [size] are Pillow's attributes, [size] being
    (width, height); [bands] holds one plane per band of the mode. *)
Record Image := mk {
  mode : Mode;
  size : nat * nat;
  bands : list band
}.

Definition width (img : Image) : nat := fst (size img).
Definition height (img : Image) : nat := snd (size img).

(** [img.split()]: one "L" image per band, each of the size of [img]. *)
Definition split (img : Image) : list Image :=
  map (fun b => mk L (size img) [b]) (bands img).

(** [Image.merge(mode, bands)]: the bands must be as many as the mode
    has, single-band, and of one size. *)
Definition merge (m : Mode) (bs : list Image) : result Image :=
  if negb (bool_decide (getmodebands m = length bs)) then
    Raise (mkExc ValueError "wrong number of bands")
  else if negb (forallb (fun b => bool_decide (mode b = L)) bs) then
    Raise (mkExc ValueError "mode mismatch")
  else
    match bs with
    | [] => Raise (mkExc ValueError "wrong number of bands")
    | b0 :: _ =>
        if negb (forallb (fun b => bool_decide (size b = size b0)) bs) then
          Raise (mkExc ValueError "size mismatch")
        else Ok (mk m (size b0) (concat (map bands bs)))
    end.

(** [img.convert("RGB")]: grey is replicated on the three colour bands,
    an alpha band is dropped. *)
Definition convert_RGB (img : Image) : result Image :=
  match mode img, bands img with
  | L, [l] => Ok (mk RGB (size img) [l; l; l])
  | LA, [l; _] => Ok (mk RGB (size img) [l; l; l])
  | RGB, [r; g; b] => Ok (mk RGB (size img) [r; g; b])
  | RGBA, [r; g; b; _] => Ok (mk RGB (size img) [r; g; b])
  | _, _ => Raise (mkExc ValueError "image has wrong mode")
  end.

(** [img.point(lut)] on an 8-bit image: the table has 256 entries per
    band, and sample [v] of band [k] becomes [lut[256 * k + v]]. *)
Definition point (img : Image) (lut : list Z) : Image :=
  mk (mode img) (size img)
     (imap (fun k b =>
              map (fun v => default 0 (lut !! (256 * k + Z.to_nat v)%nat)) b)
           (bands img)).

End Image.

Module ImageOps.

(** [list(range(255, -1, -1))] *)
Definition lut : list Z := map Z.of_nat (rev (seq 0 256)).

(** [ImageOps.invert(image)]: defined on "L" and "RGB" only. *)
Definition invert (image : Image.Image) : result Image.Image :=
  match Image.mode image with
  | L => Ok (Image.point image lut)
  | RGB => Ok (Image.point image (lut ++ lut ++ lut))
  | m => Raise (mkExc OSError ("not supported for mode " +:+ mode_name m))
  end.

End ImageOps.

(** Every sample of the band is an 8-bit value. *)
Definition eight_bit (b : band) : bool :=
  forallb (fun v => (0 <=? v) && (v <=? 255)) b.

(** An image is valid when its width and height are positive, it has the
    bands of its mode, every band has width * height samples, and every
    sample is an 8-bit value. *)
Definition valid_image (img : Image.Image) : bool :=
  (0 <? Image.width img)%nat && (0 <? Image.height img)%nat
  && bool_decide (length (Image.bands img) = getmodebands (Image.mode img))
  && forallb (fun b =>
       bool_decide (length b = (Image.width img * Image.height img)%nat)
       && eight_bit b)
     (Image.bands img).

(** ** The in-memory part of [invert_image] *)

Local Open Scope result_scope.

(** Lines 11 to 22 of [invert_image]: from the decoded image to the value
    of the local [inverted]. *)
Definition inverted_of (img : Image.Image) : result Image.Image :=
  img <- (if negb (mode_in (Image.mode img) [RGB; RGBA])
          then Image.convert_RGB img
          else Ok img) ;;
  if bool_decide (Image.mode img = RGBA) then
    match Image.split img with
    | [r; g; b; a] =>
        rgb <- Image.merge RGB [r; g; b] ;;
        inverted_rgb <- ImageOps.invert rgb ;;
        Image.merge RGBA (Image.split inverted_rgb ++ [a])
    | _ => Raise (mkExc ValueError "not enough values to unpack")
    end
  else ImageOps.invert img.

Local Close Scope result_scope.

(** ** The world of the program *)

(** What a path holds: a file Pillow cannot open or decode (the exception
    says why: permission refused, no decoder recognises the data), or an
    image file.  A path that is not in the map does not exist. *)
Inductive entry :=
  | Unreadable (e : exception)
  | Picture (img : Image.Image).

(** What an encoder does with an image: there is no encoder for the
    extension, and [save] raises before it opens the file ("unknown file
    extension"); the encoder refuses the image once the file is open
    ("cannot write mode RGBA as JPEG"); or the file is written and then
    holds [img], which a lossy format makes differ from the image given. *)
Inductive encoding :=
  | NoEncoder (e : exception)
  | Refused (e : exception)
  | Kept (img : Image.Image).

(** [files] is the file system; [unwritable] gives, for the paths that
    cannot be opened for writing, the exception the attempt raises;
    [write_errors] gives, for the paths where writing fails after the file
    was opened (disk full), the exception of the write; [other_formats]
    is what Pillow's encoders other than PNG do, by lower-case extension;
    [cwd] is the working directory and [stdout] the lines printed so far. *)
Record world := mkWorld {
  files : gmap string entry;
  unwritable : gmap string exception;
  write_errors : gmap string exception;
  other_formats : string -> Image.Image -> encoding;
  cwd : string;
  stdout : list string
}.

(** How a piece of the program ends: it returns, it raises an exception
    (a subclass of [Exception]), or it leaves through [sys.exit]. *)
Inductive outcome (A : Type) :=
  | Returns (a : A)
  | Raises (e : exception)
  | Exits (code : Z).
Arguments Returns {A} a.
Arguments Raises {A} e.
Arguments Exits {A} code.

Definition prog (A : Type) : Type := world -> outcome A * world.

Definition pret {A} (a : A) : prog A := fun w => (Returns a, w).

Definition pbind {A B} (c : prog A) (k : A -> prog B) : prog B :=
  fun w =>
    match c w with
    | (Returns a, w') => k a w'
    | (Raises e, w') => (Raises e, w')
    | (Exits n, w') => (Exits n, w')
    end.

Declare Scope prog_scope.
Delimit Scope prog_scope with prog.
Notation "x <- c ;; k" := (pbind c (fun x => k))
  (at level 100, c at next level, right associativity) : prog_scope.
Notation "c ;;; k" := (pbind c (fun _ => k))
  (at level 100, right associativity) : prog_scope.

(** A Pillow call that does not touch the world. *)
Definition lift {A} (r : result A) : prog A :=
  fun w =>
    match r with
    | Ok a => (Returns a, w)
    | Raise e => (Raises e, w)
    end.

(** [try: body except Exception as e: handler e].  State changes made by
    the body before it raised are kept; [sys.exit] is not an [Exception]
    and passes through. *)
Definition try_except {A} (body : prog A) (handler : exception -> prog A)
  : prog A :=
  fun w =>
    match body w with
    | (Raises e, w') => handler e w'
    | r => r
    end.

(** The world after one more line on standard output. *)
Definition with_line (w : world) (s : string) : world :=
  mkWorld (files w) (unwritable w) (write_errors w) (other_formats w) (cwd w)
          (stdout w ++ [s]).

(** The world with another file system. *)
Definition with_files (w : world) (fs : gmap string entry) : world :=
  mkWorld fs (unwritable w) (write_errors w) (other_formats w) (cwd w)
          (stdout w).

(** [print(s)] *)
Definition print (s : string) : prog unit :=
  fun w => (Returns tt, with_line w s).

(** [sys.exit(code)] *)
Definition sys_exit {A} (code : Z) : prog A := fun w => (Exits code, w).

(** [os.getcwd()] *)
Definition os_getcwd : prog string := fun w => (Returns (cwd w), w).

(** [os.path.join(a, b)] on POSIX paths. *)
Definition os_path_join (a b : string) : string :=
  if String.prefix "/" b then b
  else if bool_decide (a = "") || String.prefix "/" (String.rev a)
       then a +:+ b
       else a +:+ "/" +:+ b.

(** [Image.open(path)] *)
Definition Image_open (path : string) : prog Image.Image :=
  fun w =>
    match files w !! path with
    | None =>
        (Raises (mkExc FileNotFoundError
                   ("[Errno 2] No such file or directory: '" +:+ path +:+ "'")),
         w)
    | Some (Unreadable e) => (Raises e, w)
    | Some (Picture img) => (Returns img, w)
    end.

(** [os.path.splitext(path)[1]], read from the left: [ext] is the
    extension found so far in the current component and [seen] tells
    whether the component has a character other than a dot.  A slash
    starts a new component, a dot after such a character starts a new
    extension, and the leading dots of a component start none. *)
Fixpoint splitext_from (seen : bool) (ext : string) (p : string) : string :=
  match p with
  | "" => ext
  | String c p' =>
      if Ascii.eqb c "/"%char then splitext_from false "" p'
      else if Ascii.eqb c "."%char then
        if seen then splitext_from true "." p'
        else splitext_from false "" p'
      else
        splitext_from true
          (if bool_decide (ext = "") then "" else ext +:+ String c "") p'
  end.

(** [c.lower()] on an ASCII character. *)
Definition ascii_lower (c : Ascii.ascii) : Ascii.ascii :=
  let n := Ascii.nat_of_ascii c in
  if (65 <=? n)%nat && (n <=? 90)%nat then Ascii.ascii_of_nat (n + 32)
  else c.

(** [s.lower()] *)
Fixpoint str_lower (s : string) : string :=
  match s with
  | "" => ""
  | String c s' => String (ascii_lower c) (str_lower s')
  end.

(** [os.path.splitext(path)[1].lower()]: what [save] picks the format by. *)
Definition file_extension (path : string) : string :=
  str_lower (splitext_from false "" path).

(** The encoder [save] uses for a path: PNG for [.png], which keeps the
    image as it is, and for any other extension what the world says. *)
Definition encoder (w : world) (path : string) (img : Image.Image)
  : encoding :=
  if bool_decide (file_extension path = ".png") then Kept img
  else other_formats w (file_extension path) img.

(** What is left of a file that was opened for writing and not written to
    the end: nothing Pillow can decode. *)
Definition damaged (path : string) : entry :=
  Unreadable (mkExc UnidentifiedImageError
                ("cannot identify image file '" +:+ path +:+ "'")).

(** The files after a write that failed once the file was open: a file
    that was there has lost its content, a file that [save] created is
    removed again. *)
Definition failed_write (path : string) (fs : gmap string entry)
  : gmap string entry :=
  match fs !! path with
  | Some _ => <[path := damaged path]> fs
  | None => fs
  end.

(** [img.save(path)]: the format is taken from the extension, the file is
    opened for writing, and the encoder writes the image.  Each of the
    three can fail; the last one after the file has been emptied. *)
Definition Image_save (img : Image.Image) (path : string) : prog unit :=
  fun w =>
    match encoder w path img with
    | NoEncoder e => (Raises e, w)
    | Refused e =>
        match unwritable w !! path with
        | Some e0 => (Raises e0, w)
        | None => (Raises e, with_files w (failed_write path (files w)))
        end
    | Kept img' =>
        match unwritable w !! path with
        | Some e0 => (Raises e0, w)
        | None =>
            match write_errors w !! path with
            | Some e =>
                (Raises e, with_files w (failed_write path (files w)))
            | None =>
                (Returns tt,
                 with_files w (<[path := Picture img']> (files w)))
            end
        end
    end.

(** ** The program *)

Local Open Scope prog_scope.

Definition not_found_message : string :=
  "Error: logo.png not found in current directory.".

Definition invert_image (input_path output_path : string) : prog unit :=
  try_except
    (img <- Image_open input_path ;;
     inverted <- lift (inverted_of img) ;;
     Image_save inverted output_path ;;;
     print ("Saved inverted image as: " +:+ output_path))
    (fun e =>
       if bool_decide (exc_type e = FileNotFoundError) then
         print not_found_message ;;;
         sys_exit 1
       else
         print ("Error: " +:+ exc_str e) ;;;
         sys_exit 1).

Definition main : prog unit :=
  let input_file := "logo.png" in
  let output_file := "logo_inverted.png" in
  cwd <- os_getcwd ;;
  let input_path := os_path_join cwd input_file in
  let output_path := os_path_join cwd output_file in
  invert_image input_path output_path.

Local Close Scope prog_scope.

(** The exit status of the process: 0 when the script runs to its end, the
    code given to [sys.exit], 1 for an exception nobody handled. *)
Definition exit_status {A} (o : outcome A) : Z :=
  match o with
  | Returns _ => 0
  | Raises _ => 1
  | Exits code => code
  end.

(** ** Notions the properties are stated with *)

(** The inversion of one sample, and of one band. *)
Definition inv_sample (v : Z) : Z := 255 - v.
Definition inv_band (b : band) : band := map inv_sample b.

(** The red, green and blue bands of an "RGB" or "RGBA" image. *)
Definition colour_bands (img : Image.Image) : list band :=
  take 3 (Image.bands img).

(** The alpha band of an image whose mode has one. *)
Definition alpha_band (img : Image.Image) : option band :=
  match Image.mode img with
  | LA => Image.bands img !! 1%nat
  | RGBA => Image.bands img !! 3%nat
  | L | RGB => None
  end.

(** [list(img.getdata())]: the pixels in row-major order, each with one
    sample per band. *)
Definition getdata (img : Image.Image) : list (list Z) :=
  map (fun i => map (fun b => nth i b 0) (Image.bands img))
      (seq 0 (Image.width img * Image.height img)).

(** The exception [save] raises, if any. *)
Definition save_failure (w : world) (path : string) (img : Image.Image)
  : option exception :=
  match encoder w path img with
  | NoEncoder e => Some e
  | Refused e =>
      match unwritable w !! path with
      | Some e0 => Some e0
      | None => Some e
      end
  | Kept _ =>
      match unwritable w !! path with
      | Some e0 => Some e0
      | None => write_errors w !! path
      end
  end.

(** The exception the [try] block of [invert_image] raises in a world, if
    any: from opening the input, from the in-memory part, or from saving. *)
Definition first_failure (input_path output_path : string) (w : world)
  : option exception :=
  match files w !! input_path with
  | None =>
      Some (mkExc FileNotFoundError
              ("[Errno 2] No such file or directory: '" +:+ input_path +:+ "'"))
  | Some (Unreadable e) => Some e
  | Some (Picture img) =>
      match inverted_of img with
      | Raise e => Some e
      | Ok out => save_failure w output_path out
      end
  end.

(** The files a run leaves. *)
Definition files_after (input_path output_path : string) (w : world)
  : gmap string entry :=
  match files w !! input_path with
  | Some (Picture img) =>
      match inverted_of img with
      | Raise _ => files w
      | Ok out =>
          match encoder w output_path out, unwritable w !! output_path with
          | NoEncoder _, _ => files w
          | _, Some _ => files w
          | Refused _, None => failed_write output_path (files w)
          | Kept img', None =>
              match write_errors w !! output_path with
              | Some _ => failed_write output_path (files w)
              | None => <[output_path := Picture img']> (files w)
              end
          end
      end
  | _ => files w
  end.

(** The line a run prints. *)
Definition line_after (input_path output_path : string) (w : world)
  : string :=
  match first_failure input_path output_path w with
  | Some e =>
      if bool_decide (exc_type e = FileNotFoundError) then
        "Error: logo.png not found in current directory."
      else "Error: " +:+ exc_str e
  | None => "Saved inverted image as: " +:+ output_path
  end.

(** A valid image has the shape of its mode. *)
Inductive shaped : Image.Image -> Prop :=
  | shaped_L sz l :
      eight_bit l = true -> shaped (Image.mk L sz [l])
  | shaped_LA sz l a :
      eight_bit l = true -> eight_bit a = true ->
      shaped (Image.mk LA sz [l; a])
  | shaped_RGB sz r g b :
      eight_bit r = true -> eight_bit g = true -> eight_bit b = true ->
      shaped (Image.mk RGB sz [r; g; b])
  | shaped_RGBA sz r g b a :
      eight_bit r = true -> eight_bit g = true -> eight_bit b = true ->
      eight_bit a = true ->
      shaped (Image.mk RGBA sz [r; g; b; a]).

(** The image a path holds, when it holds one. *)
Definition saved_image (w : world) (path : string) : option Image.Image :=
  match files w !! path with
  | Some (Picture img) => Some img
  | _ => None
  end.

(** The image that enters the inversion: the decoded image after lines 12
    and 13. *)
Definition normalised (img : Image.Image) : result Image.Image :=
  if mode_in (Image.mode img) [RGB; RGBA] then Ok img
  else Image.convert_RGB img.

(** A run of [invert_image] prints exactly [line] and ends the process
    with [status]. *)
Definition reports (input_path output_path : string) (w : world)
           (line : string) (status : Z) : Prop :=
  stdout (snd (invert_image input_path output_path w)) = stdout w ++ [line]
  /\ exit_status (fst (invert_image input_path output_path w)) = status.

(** The run leaves at the output path an image whose alpha band is [a]. *)
Definition alpha_kept (input_path output_path : string) (w : world)
           (a : band) : Prop :=
  exists out,
    saved_image (snd (invert_image input_path output_path w)) output_path
    = Some out
    /\ alpha_band out = Some a.

(** The input cannot be had: the file is missing, or it is there and
    cannot be opened or decoded. *)
Definition input_unavailable (input_path : string) (w : world) : Prop :=
  match files w !! input_path with
  | None | Some (Unreadable _) => True
  | Some (Picture _) => False
  end.

(** ** Sample images and worlds *)

Definition rgba_2x1 : Image.Image :=
  Image.mk RGBA (2, 1)%nat [[10; 0]; [20; 255]; [30; 128]; [255; 0]].

Definition rgb_1x2 : Image.Image :=
  Image.mk RGB (1, 2)%nat [[0; 255]; [17; 128]; [200; 1]].

Definition grey_2x1 : Image.Image := Image.mk L (2, 1)%nat [[0; 200]].

Definition grey_alpha_1x1 : Image.Image :=
  Image.mk LA (1, 1)%nat [[100]; [50]].

(** A Pillow that has the PNG encoder only. *)
Definition png_only (ext : string) (img : Image.Image) : encoding :=
  NoEncoder (mkExc ValueError ("unknown file extension: " +:+ ext)).

(** A directory [/d] that holds [logo.png] and can be written. *)
Definition world_with (img : Image.Image) : world :=
  mkWorld {[ "/d/logo.png" := Picture img ]} ∅ ∅ png_only "/d" [].

(** [/d] without [logo.png]. *)
Definition world_without_input : world := mkWorld ∅ ∅ ∅ png_only "/d" [].

Definition permission_denied : exception :=
  mkExc PermissionError "[Errno 13] Permission denied: '/d/logo.png'".

(** [/d/logo.png] is there and may not be read. *)
Definition world_denied : world :=
  mkWorld {[ "/d/logo.png" := Unreadable permission_denied ]} ∅ ∅ png_only
          "/d" [].

Definition no_output_directory : exception :=
  mkExc FileNotFoundError
    "[Errno 2] No such file or directory: '/out/logo_inverted.png'".

(** [/d/logo.png] is a good image, and there is no directory [/out]. *)
Definition world_no_out_dir : world :=
  mkWorld {[ "/d/logo.png" := Picture rgba_2x1 ]}
          {[ "/out/logo_inverted.png" := no_output_directory ]} ∅ png_only
          "/d" [].

Definition output_denied : exception :=
  mkExc PermissionError
    "[Errno 13] Permission denied: '/out/logo_inverted.png'".

(** [/d/logo.png] is a good image, and [/out] may not be written. *)
Definition world_out_denied : world :=
  mkWorld {[ "/d/logo.png" := Picture rgba_2x1 ]}
          {[ "/out/logo_inverted.png" := output_denied ]} ∅ png_only
          "/d" [].

(** The JPEG encoder as far as images with an alpha band go: it refuses
    them. *)
Definition jpeg_refusing_alpha (ext : string) (img : Image.Image)
  : encoding :=
  if bool_decide (ext ∈ [".jpg"; ".jpeg"])
     && bool_decide (Image.mode img ∈ [LA; RGBA])
  then Refused (mkExc OSError ("cannot write mode "
                               +:+ mode_name (Image.mode img) +:+ " as JPEG"))
  else png_only ext img.

(** [/d/logo.png] is a good "RGBA" image and [/d/out.jpg] holds an older
    picture. *)
Definition world_with_old_jpeg : world :=
  mkWorld {[ "/d/logo.png" := Picture rgba_2x1;
             "/d/out.jpg" := Picture rgb_1x2 ]}
          ∅ ∅ jpeg_refusing_alpha "/d" [].

(** * Properties *)

(** ** The lookup table of [ImageOps.invert] *)

Lemma lut3_table :
  forallb (fun i : nat =>
             bool_decide ((ImageOps.lut ++ ImageOps.lut ++ ImageOps.lut) !! i
                          = Some (255 - Z.of_nat (i mod 256))))
          (seq 0 768) = true.
Proof. vm_compute. reflexivity. Qed.

Lemma lut3_lookup (k : nat) (v : Z) :
  (k < 3)%nat -> 0 <= v <= 255 ->
  default 0 ((ImageOps.lut ++ ImageOps.lut ++ ImageOps.lut)
               !! (256 * k + Z.to_nat v)%nat) = inv_sample v.
Proof.
  intros Hk Hv.
  pose proof lut3_table as T.
  rewrite forallb_forall in T.
  specialize (T (256 * k + Z.to_nat v)%nat).
  rewrite bool_decide_eq_true in T.
  rewrite T.
  - replace ((256 * k + Z.to_nat v) mod 256)%nat with (Z.to_nat v).
    + unfold inv_sample, default. cbn [from_option id]. lia.
    + rewrite Nat.add_comm, Nat.mul_comm, Nat.Div0.mod_add.
      symmetry. apply Nat.mod_small. lia.
  - apply in_seq. lia.
Qed.

Lemma point_band (k : nat) (b : band) :
  (k < 3)%nat -> eight_bit b = true ->
  map (fun v => default 0 ((ImageOps.lut ++ ImageOps.lut ++ ImageOps.lut)
                             !! (256 * k + Z.to_nat v)%nat)) b
  = inv_band b.
Proof.
  intros Hk. unfold eight_bit, inv_band.
  induction b as [|v b IH]; intros Hb; [reflexivity|].
  cbn [forallb] in Hb. apply andb_prop in Hb as [Hv Hb].
  apply andb_prop in Hv as [H0 H255].
  apply Z.leb_le in H0, H255.
  cbn [map]. rewrite lut3_lookup by lia. rewrite IH by exact Hb. reflexivity.
Qed.

Lemma inv_band_eight_bit (b : band) :
  eight_bit b = true -> eight_bit (inv_band b) = true.
Proof.
  unfold eight_bit, inv_band, inv_sample.
  induction b as [|v b IH]; intros Hb; [reflexivity|].
  cbn [forallb map] in *. apply andb_prop in Hb as [Hv Hb].
  apply andb_prop in Hv as [H0 H255].
  apply Z.leb_le in H0, H255.
  rewrite IH by exact Hb.
  apply andb_true_intro; split; [|reflexivity].
  apply andb_true_intro; split; apply Z.leb_le; lia.
Qed.

Lemma inv_band_involutive (b : band) : inv_band (inv_band b) = b.
Proof.
  unfold inv_band, inv_sample. rewrite map_map.
  rewrite <- (map_id b) at 2. apply map_ext. intros v. lia.
Qed.

Lemma inv_band_length (b : band) : length (inv_band b) = length b.
Proof. unfold inv_band. apply length_map. Qed.

(** ** What [inverted_of] computes, mode by mode *)

Lemma invert_RGB sz (r g b : band) :
  eight_bit r = true -> eight_bit g = true -> eight_bit b = true ->
  ImageOps.invert (Image.mk RGB sz [r; g; b])
  = Ok (Image.mk RGB sz [inv_band r; inv_band g; inv_band b]).
Proof.
  intros Hr Hg Hb. unfold ImageOps.invert, Image.point.
  cbn [Image.mode Image.size Image.bands imap].
  unfold compose.
  rewrite !point_band by (assumption || lia).
  reflexivity.
Qed.

Lemma inverted_of_RGB sz (r g b : band) :
  eight_bit r = true -> eight_bit g = true -> eight_bit b = true ->
  inverted_of (Image.mk RGB sz [r; g; b])
  = Ok (Image.mk RGB sz [inv_band r; inv_band g; inv_band b]).
Proof.
  intros Hr Hg Hb. unfold inverted_of.
  change (mode_in (Image.mode (Image.mk RGB sz [r; g; b])) [RGB; RGBA])
    with true.
  cbn [negb rbind Image.mode]. 
  change (bool_decide (RGB = RGBA)) with false. cbv iota.
  apply invert_RGB; assumption.
Qed.

Lemma inverted_of_RGBA sz (r g b a : band) :
  eight_bit r = true -> eight_bit g = true -> eight_bit b = true ->
  inverted_of (Image.mk RGBA sz [r; g; b; a])
  = Ok (Image.mk RGBA sz [inv_band r; inv_band g; inv_band b; a]).
Proof.
  intros Hr Hg Hb. unfold inverted_of.
  change (mode_in (Image.mode (Image.mk RGBA sz [r; g; b; a])) [RGB; RGBA])
    with true.
  cbn [negb rbind Image.mode].
  change (bool_decide (RGBA = RGBA)) with true. cbv iota.
  cbn [Image.split Image.bands Image.size map].
  assert (Hm : Image.merge RGB
                 [Image.mk L sz [r]; Image.mk L sz [g]; Image.mk L sz [b]]
               = Ok (Image.mk RGB sz [r; g; b])).
  { unfold Image.merge. cbn [getmodebands length forallb Image.mode Image.size].
    rewrite !bool_decide_eq_true_2 by reflexivity. reflexivity. }
  rewrite Hm. cbn [rbind].
  rewrite invert_RGB by assumption. cbn [rbind].
  cbn [Image.split Image.bands Image.size map app].
  unfold Image.merge. cbn [getmodebands length forallb Image.mode Image.size].
  rewrite !bool_decide_eq_true_2 by reflexivity. reflexivity.
Qed.

Lemma inverted_of_L sz (l : band) :
  eight_bit l = true ->
  inverted_of (Image.mk L sz [l])
  = Ok (Image.mk RGB sz [inv_band l; inv_band l; inv_band l]).
Proof.
  intros Hl. unfold inverted_of.
  change (mode_in (Image.mode (Image.mk L sz [l])) [RGB; RGBA]) with false.
  cbn [negb rbind Image.mode Image.convert_RGB Image.bands Image.size].
  change (bool_decide (RGB = RGBA)) with false. cbv iota.
  apply invert_RGB; assumption.
Qed.

Lemma inverted_of_LA sz (l a : band) :
  eight_bit l = true ->
  inverted_of (Image.mk LA sz [l; a])
  = Ok (Image.mk RGB sz [inv_band l; inv_band l; inv_band l]).
Proof.
  intros Hl. unfold inverted_of.
  change (mode_in (Image.mode (Image.mk LA sz [l; a])) [RGB; RGBA]) with false.
  cbn [negb rbind Image.mode Image.convert_RGB Image.bands Image.size].
  change (bool_decide (RGB = RGBA)) with false. cbv iota.
  apply invert_RGB; assumption.
Qed.

Lemma valid_image_shaped (img : Image.Image) :
  valid_image img = true -> shaped img.
Proof.
  destruct img as [m sz bs]. unfold valid_image.
  cbn [Image.mode Image.bands Image.width Image.height Image.size].
  intros H. apply andb_prop in H as [H Hb]. apply andb_prop in H as [_ Hn].
  apply bool_decide_eq_true in Hn.
  assert (Hall : forall b, In b bs -> eight_bit b = true).
  { intros b Hin. rewrite forallb_forall in Hb.
    specialize (Hb b Hin). apply andb_prop in Hb as [_ Hb]. exact Hb. }
  destruct m; cbn [getmodebands] in Hn;
    repeat (destruct bs as [|? bs]; try discriminate Hn);
    constructor; apply Hall; cbn [In]; tauto.
Qed.

Lemma valid_image_lengths (img : Image.Image) (b : band) :
  valid_image img = true -> In b (Image.bands img) ->
  length b = (Image.width img * Image.height img)%nat.
Proof.
  unfold valid_image. intros H Hin.
  apply andb_prop in H as [_ Hb].
  rewrite forallb_forall in Hb. specialize (Hb b Hin).
  apply andb_prop in Hb as [Hl _]. apply bool_decide_eq_true in Hl. exact Hl.
Qed.

Lemma valid_image_positive (img : Image.Image) :
  valid_image img = true ->
  (0 < Image.width img)%nat /\ (0 < Image.height img)%nat.
Proof.
  unfold valid_image. intros H.
  apply andb_prop in H as [H _]. apply andb_prop in H as [H _].
  apply andb_prop in H as [Hw Hh].
  apply Nat.ltb_lt in Hw, Hh. split; assumption.
Qed.

(** ** What [invert_image] does, by the failure of its [try] block *)

(** A run in one equation: how it ends, the files it leaves and the line
    it prints. *)
Lemma invert_image_run (input_path output_path : string) (w : world) :
  invert_image input_path output_path w
  = (match first_failure input_path output_path w with
     | Some _ => Exits 1
     | None => Returns tt
     end,
     with_line (with_files w (files_after input_path output_path w))
               (line_after input_path output_path w)).
Proof.
  unfold line_after, first_failure, save_failure, files_after, invert_image,
    try_except, pbind, Image_open, lift, Image_save, print, sys_exit,
    not_found_message.
  destruct (files w !! input_path) as [[e0|img]|].
  - destruct (bool_decide _); reflexivity.
  - destruct (inverted_of img) as [out|e1].
    + destruct (encoder w output_path out) as [e|e|kept];
        destruct (unwritable w !! output_path) as [e0|];
        try destruct (write_errors w !! output_path) as [e2|];
        try reflexivity;
        destruct (bool_decide _); reflexivity.
    + destruct (bool_decide _); reflexivity.
  - reflexivity.
Qed.

Lemma invert_image_failure (input_path output_path : string) (w : world)
      (e : exception) :
  first_failure input_path output_path w = Some e ->
  invert_image input_path output_path w
  = (Exits 1,
     with_line (with_files w (files_after input_path output_path w))
               (if bool_decide (exc_type e = FileNotFoundError)
                then not_found_message
                else "Error: " +:+ exc_str e)).
Proof.
  intros Hfail. rewrite invert_image_run. unfold line_after.
  rewrite Hfail. reflexivity.
Qed.

(** The PNG encoder keeps the image as it is. *)
Lemma encoder_png (w : world) (path : string) (img : Image.Image) :
  file_extension path = ".png" -> encoder w path img = Kept img.
Proof.
  intros Hext. unfold encoder.
  rewrite bool_decide_eq_true_2 by exact Hext. reflexivity.
Qed.

Lemma invert_image_success (input_path output_path : string) (w : world)
      (img out kept : Image.Image) :
  files w !! input_path = Some (Picture img) ->
  inverted_of img = Ok out ->
  encoder w output_path out = Kept kept ->
  unwritable w !! output_path = None ->
  write_errors w !! output_path = None ->
  invert_image input_path output_path w
  = (Returns tt,
     with_line (with_files w (<[output_path := Picture kept]> (files w)))
               ("Saved inverted image as: " +:+ output_path)).
Proof.
  intros Hf Hi He Hu Hw. rewrite invert_image_run.
  unfold line_after, first_failure, save_failure, files_after.
  rewrite Hf, Hi, He, Hu, Hw. reflexivity.
Qed.

Lemma first_failure_None (input_path output_path : string) (w : world) :
  first_failure input_path output_path w = None ->
  exists img out kept,
    files w !! input_path = Some (Picture img)
    /\ inverted_of img = Ok out
    /\ encoder w output_path out = Kept kept
    /\ unwritable w !! output_path = None
    /\ write_errors w !! output_path = None.
Proof.
  unfold first_failure, save_failure.
  destruct (files w !! input_path) as [[e0|img]|]; try discriminate.
  destruct (inverted_of img) as [out|e1] eqn:Hi; try discriminate.
  destruct (encoder w output_path out) as [e|e|kept] eqn:He;
    destruct (unwritable w !! output_path) as [e0|] eqn:Hu;
    try discriminate.
  intros Hw. exists img, out, kept.
  repeat split; assumption || reflexivity.
Qed.

Lemma inverted_of_valid (img : Image.Image) :
  valid_image img = true -> exists out, inverted_of img = Ok out.
Proof.
  intros H. destruct (valid_image_shaped img H).
  - eexists. apply inverted_of_L; assumption.
  - eexists. apply inverted_of_LA; assumption.
  - eexists. apply inverted_of_RGB; assumption.
  - eexists. apply inverted_of_RGBA; assumption.
Qed.

Lemma main_unfold (w : world) :
  main w = invert_image (os_path_join (cwd w) "logo.png")
                        (os_path_join (cwd w) "logo_inverted.png") w.
Proof. reflexivity. Qed.

(** A run that writes a PNG file leaves the inverted image itself. *)
Lemma saved_after_success (input_path output_path : string) (w : world)
      (img out : Image.Image) :
  files w !! input_path = Some (Picture img) ->
  inverted_of img = Ok out ->
  file_extension output_path = ".png" ->
  unwritable w !! output_path = None ->
  write_errors w !! output_path = None ->
  saved_image (snd (invert_image input_path output_path w)) output_path
  = Some out.
Proof.
  intros Hf Hi Hext Hu Hw.
  rewrite (invert_image_success _ _ _ _ _ _ Hf Hi (encoder_png _ _ _ Hext)
             Hu Hw).
  unfold saved_image. cbn [snd files with_line with_files].
  rewrite lookup_insert_eq. reflexivity.
Qed.

(** Two runs in a row through PNG files, the second reading what the
    first wrote. *)
Lemma saved_after_two_runs (input_path mid_path output_path : string)
      (w : world) (img out n : Image.Image) :
  files w !! input_path = Some (Picture img) ->
  inverted_of img = Ok out ->
  inverted_of out = Ok n ->
  file_extension mid_path = ".png" ->
  unwritable w !! mid_path = None ->
  write_errors w !! mid_path = None ->
  file_extension output_path = ".png" ->
  unwritable w !! output_path = None ->
  write_errors w !! output_path = None ->
  saved_image
    (snd (invert_image mid_path output_path
            (snd (invert_image input_path mid_path w))))
    output_path
  = Some n.
Proof.
  intros Hf H1 H2 He1 Hu1 Hw1 He2 Hu2 Hw2.
  rewrite (invert_image_success _ _ _ _ _ _ Hf H1 (encoder_png _ _ _ He1)
             Hu1 Hw1).
  cbn [snd].
  apply saved_after_success with (img := out);
    cbn [files unwritable write_errors with_line with_files];
    try assumption.
  apply lookup_insert_eq.
Qed.

(** ** The image claims, on a run that finds a valid image and can write
       a PNG file *)

Section ValidRun.

Variables (input_path output_path : string) (w : world).
Variable img : Image.Image.
Hypothesis input_present : files w !! input_path = Some (Picture img).
Hypothesis input_valid : valid_image img = true.
Hypothesis output_png : file_extension output_path = ".png".
Hypothesis output_writable : unwritable w !! output_path = None.
Hypothesis output_written : write_errors w !! output_path = None.

(** C1. For every decoded image, each colour sample of the output is
    255 minus the corresponding colour sample of the image that enters
    the inversion: with an alpha band ("RGBA") the three colour bands are
    split off, inverted and merged back, and without one the image is
    inverted directly; either way the image saved as a PNG file has the
    mode of the normalised image and its red, green and blue bands are the
    inverted ones. *)
Theorem colour_samples_inverted :
  exists n out,
    normalised img = Ok n
    /\ saved_image (snd (invert_image input_path output_path w)) output_path
       = Some out
    /\ Image.mode out = Image.mode n
    /\ colour_bands out = map inv_band (colour_bands n).
Proof.
  pose proof (valid_image_shaped img input_valid) as Hs.
  destruct Hs as [sz l Hl | sz l a Hl Ha | sz r g b Hr Hg Hb
                 | sz r g b a Hr Hg Hb Ha].
  - exists (Image.mk RGB sz [l; l; l]),
           (Image.mk RGB sz [inv_band l; inv_band l; inv_band l]).
    split; [reflexivity|]. split; [|split; reflexivity].
    apply (saved_after_success _ _ _ _ _ input_present); [|assumption..].
    apply inverted_of_L; assumption.
  - exists (Image.mk RGB sz [l; l; l]),
           (Image.mk RGB sz [inv_band l; inv_band l; inv_band l]).
    split; [reflexivity|]. split; [|split; reflexivity].
    apply (saved_after_success _ _ _ _ _ input_present); [|assumption..].
    apply inverted_of_LA; assumption.
  - exists (Image.mk RGB sz [r; g; b]),
           (Image.mk RGB sz [inv_band r; inv_band g; inv_band b]).
    split; [reflexivity|]. split; [|split; reflexivity].
    apply (saved_after_success _ _ _ _ _ input_present); [|assumption..].
    apply inverted_of_RGB; assumption.
  - exists (Image.mk RGBA sz [r; g; b; a]),
           (Image.mk RGBA sz [inv_band r; inv_band g; inv_band b; a]).
    split; [reflexivity|]. split; [|split; reflexivity].
    apply (saved_after_success _ _ _ _ _ input_present); [|assumption..].
    apply inverted_of_RGBA; assumption.
Qed.

(** C2, amended. For every input image decoded in mode "RGBA", the alpha
    band of the output, saved as a PNG file, is the alpha band of the
    input, sample for sample. *)
Theorem alpha_preserved_RGBA :
  Image.mode img = RGBA ->
  exists a,
    alpha_band img = Some a /\ alpha_kept input_path output_path w a.
Proof.
  intros Hm.
  pose proof (valid_image_shaped img input_valid) as Hs.
  destruct Hs as [sz l Hl | sz l a Hl Ha | sz r g b Hr Hg Hb
                 | sz r g b a Hr Hg Hb Ha]; try discriminate Hm.
  exists a. split; [reflexivity|].
  exists (Image.mk RGBA sz [inv_band r; inv_band g; inv_band b; a]).
  split; [|reflexivity].
  apply (saved_after_success _ _ _ _ _ input_present); [|assumption..].
  apply inverted_of_RGBA; assumption.
Qed.

(** C4. For every input whose decoded mode is neither "RGB" nor "RGBA",
    the image is converted to "RGB" and the conversion is what gets
    inverted: the output, saved as a PNG file, is a three-band "RGB"
    image; for a grey input with intensities [l], each of the three bands
    is 255 minus [l]. *)
Theorem other_modes_converted_to_RGB :
  mode_in (Image.mode img) [RGB; RGBA] = false ->
  exists n out,
    Image.convert_RGB img = Ok n
    /\ Image.mode n = RGB
    /\ inverted_of img = ImageOps.invert n
    /\ saved_image (snd (invert_image input_path output_path w)) output_path
       = Some out
    /\ Image.mode out = RGB
    /\ length (Image.bands out) = 3%nat
    /\ (forall l, Image.mode img = L -> Image.bands img = [l] ->
          Image.bands out = [inv_band l; inv_band l; inv_band l]).
Proof.
  intros Hm.
  pose proof (valid_image_shaped img input_valid) as Hs.
  destruct Hs as [sz l Hl | sz l a Hl Ha | sz r g b Hr Hg Hb
                 | sz r g b a Hr Hg Hb Ha]; try discriminate Hm.
  - exists (Image.mk RGB sz [l; l; l]),
           (Image.mk RGB sz [inv_band l; inv_band l; inv_band l]).
    split; [reflexivity|]. split; [reflexivity|].
    split; [reflexivity|]. split.
    { apply (saved_after_success _ _ _ _ _ input_present); [|assumption..].
      apply inverted_of_L; assumption. }
    split; [reflexivity|]. split; [reflexivity|].
    intros l' _ [= <-]. reflexivity.
  - exists (Image.mk RGB sz [l; l; l]),
           (Image.mk RGB sz [inv_band l; inv_band l; inv_band l]).
    split; [reflexivity|]. split; [reflexivity|].
    split; [reflexivity|]. split.
    { apply (saved_after_success _ _ _ _ _ input_present); [|assumption..].
      apply inverted_of_LA; assumption. }
    split; [reflexivity|]. split; [reflexivity|].
    intros l' [=].
Qed.

(** C7. For every valid input image, the output, saved as a PNG file, has
    the width and the height of the input. *)
Theorem dimensions_preserved :
  exists out,
    saved_image (snd (invert_image input_path output_path w)) output_path
    = Some out
    /\ Image.width out = Image.width img
    /\ Image.height out = Image.height img
    /\ Forall (fun b => length b = (Image.width img * Image.height img)%nat)
              (Image.bands out).
Proof.
  pose proof (valid_image_lengths img) as Hlen.
  specialize (fun b => Hlen b input_valid).
  pose proof (valid_image_shaped img input_valid) as Hs.
  destruct Hs as [sz l Hl | sz l a Hl Ha | sz r g b Hr Hg Hb
                 | sz r g b a Hr Hg Hb Ha];
    cbn [Image.bands In] in Hlen.
  - exists (Image.mk RGB sz [inv_band l; inv_band l; inv_band l]).
    split.
    { apply (saved_after_success _ _ _ _ _ input_present); [|assumption..].
      apply inverted_of_L; assumption. }
    split; [reflexivity|]. split; [reflexivity|].
    repeat constructor; rewrite inv_band_length; apply Hlen; tauto.
  - exists (Image.mk RGB sz [inv_band l; inv_band l; inv_band l]).
    split.
    { apply (saved_after_success _ _ _ _ _ input_present); [|assumption..].
      apply inverted_of_LA; assumption. }
    split; [reflexivity|]. split; [reflexivity|].
    repeat constructor; rewrite inv_band_length; apply Hlen; tauto.
  - exists (Image.mk RGB sz [inv_band r; inv_band g; inv_band b]).
    split.
    { apply (saved_after_success _ _ _ _ _ input_present); [|assumption..].
      apply inverted_of_RGB; assumption. }
    split; [reflexivity|]. split; [reflexivity|].
    repeat constructor; rewrite inv_band_length; apply Hlen; tauto.
  - exists (Image.mk RGBA sz [inv_band r; inv_band g; inv_band b; a]).
    split.
    { apply (saved_after_success _ _ _ _ _ input_present); [|assumption..].
      apply inverted_of_RGBA; assumption. }
    split; [reflexivity|]. split; [reflexivity|].
    repeat constructor; rewrite ?inv_band_length; apply Hlen; tauto.
Qed.

End ValidRun.

(** C5. For every image in mode "RGB" or "RGBA", inverting twice gives the
    original back: the second inversion of the first output is the input
    image itself, colour bands and alpha band alike, and so is the file a
    second run writes from the output of the first, both runs writing PNG
    files. *)
Theorem inverting_twice_restores
        (input_path mid_path output_path : string) (w : world)
        (img : Image.Image) :
  files w !! input_path = Some (Picture img) ->
  valid_image img = true ->
  mode_in (Image.mode img) [RGB; RGBA] = true ->
  file_extension mid_path = ".png" ->
  unwritable w !! mid_path = None ->
  write_errors w !! mid_path = None ->
  file_extension output_path = ".png" ->
  unwritable w !! output_path = None ->
  write_errors w !! output_path = None ->
  exists out,
    inverted_of img = Ok out
    /\ inverted_of out = Ok img
    /\ colour_bands out = map inv_band (colour_bands img)
    /\ alpha_band out = alpha_band img
    /\ saved_image
         (snd (invert_image mid_path output_path
                 (snd (invert_image input_path mid_path w))))
         output_path
       = Some img.
Proof.
  intros Hf Hv Hm He1 Hu1 Hw1 He2 Hu2 Hw2.
  assert (Hrun : forall out,
             inverted_of img = Ok out -> inverted_of out = Ok img ->
             saved_image
               (snd (invert_image mid_path output_path
                       (snd (invert_image input_path mid_path w))))
               output_path
             = Some img).
  { intros out H1 H2.
    apply (saved_after_two_runs _ _ _ _ img out img); assumption. }
  pose proof (valid_image_shaped img Hv) as Hs.
  destruct Hs as [sz l Hl | sz l a Hl Ha | sz r g b Hr Hg Hb
                 | sz r g b a Hr Hg Hb Ha]; try discriminate Hm.
  - assert (H1 : inverted_of (Image.mk RGB sz [r; g; b])
                 = Ok (Image.mk RGB sz [inv_band r; inv_band g; inv_band b]))
      by (apply inverted_of_RGB; assumption).
    assert (H2 : inverted_of
                   (Image.mk RGB sz [inv_band r; inv_band g; inv_band b])
                 = Ok (Image.mk RGB sz [r; g; b])).
    { rewrite inverted_of_RGB by (apply inv_band_eight_bit; assumption).
      rewrite !inv_band_involutive. reflexivity. }
    eexists. split; [exact H1|]. split; [exact H2|].
    split; [reflexivity|]. split; [reflexivity|].
    apply (Hrun _ H1 H2).
  - assert (H1 : inverted_of (Image.mk RGBA sz [r; g; b; a])
                 = Ok (Image.mk RGBA sz
                         [inv_band r; inv_band g; inv_band b; a]))
      by (apply inverted_of_RGBA; assumption).
    assert (H2 : inverted_of
                   (Image.mk RGBA sz [inv_band r; inv_band g; inv_band b; a])
                 = Ok (Image.mk RGBA sz [r; g; b; a])).
    { rewrite inverted_of_RGBA by (apply inv_band_eight_bit; assumption).
      rewrite !inv_band_involutive. reflexivity. }
    eexists. split; [exact H1|]. split; [exact H2|].
    split; [reflexivity|]. split; [reflexivity|].
    apply (Hrun _ H1 H2).
Qed.

(** C6. The 2x1 "RGBA" image with pixels (10, 20, 30, 255) and
    (0, 255, 128, 0), stored as [logo.png], is inverted by the program to
    the 2x1 "RGBA" image with pixels (245, 235, 225, 255) and
    (255, 0, 127, 0). *)
Theorem concrete_scenario :
  Image.mode rgba_2x1 = RGBA
  /\ Image.size rgba_2x1 = (2, 1)%nat
  /\ getdata rgba_2x1 = [[10; 20; 30; 255]; [0; 255; 128; 0]]
  /\ exists out,
       saved_image (snd (main (world_with rgba_2x1))) "/d/logo_inverted.png"
       = Some out
       /\ Image.mode out = RGBA
       /\ Image.size out = (2, 1)%nat
       /\ getdata out = [[245; 235; 225; 255]; [255; 0; 127; 0]].
Proof.
  split; [reflexivity|]. split; [reflexivity|]. split; [reflexivity|].
  eexists. split; [vm_compute; reflexivity|].
  split; [reflexivity|]. split; reflexivity.
Qed.

(** ** The error and status claims *)

(** C3, amended. Whenever the input file is missing, the program prints
    the fixed "not found" message and ends with exit status 1. An input
    that is there and cannot be opened or decoded, with an exception other
    than file-not-found, is reported by the description of that exception,
    also with exit status 1. *)
Theorem missing_input_reported (input_path output_path : string) (w : world) :
  (files w !! input_path = None ->
   reports input_path output_path w not_found_message 1)
  /\ (forall e,
        files w !! input_path = Some (Unreadable e) ->
        exc_type e <> FileNotFoundError ->
        reports input_path output_path w ("Error: " +:+ exc_str e) 1).
Proof.
  split.
  - intros Hf. unfold reports.
    rewrite (invert_image_failure input_path output_path w
               (mkExc FileNotFoundError
                  ("[Errno 2] No such file or directory: '"
                   +:+ input_path +:+ "'"))).
    + split; reflexivity.
    + unfold first_failure. rewrite Hf. reflexivity.
  - intros e Hf Hne. unfold reports.
    rewrite (invert_image_failure input_path output_path w e).
    + rewrite bool_decide_eq_false_2 by exact Hne. split; reflexivity.
    + unfold first_failure. rewrite Hf. reflexivity.
Qed.

(** C9. On every successful run, the program prints the success message,
    which ends with the output path, and the process ends with exit
    status 0. *)
Theorem success_reported (input_path output_path : string) (w : world) :
  fst (invert_image input_path output_path w) = Returns tt ->
  reports input_path output_path w
          ("Saved inverted image as: " +:+ output_path) 0
  /\ exists out,
       saved_image (snd (invert_image input_path output_path w)) output_path
       = Some out.
Proof.
  intros Hret.
  destruct (first_failure input_path output_path w) as [e|] eqn:Hfail.
  - rewrite (invert_image_failure _ _ _ _ Hfail) in Hret. discriminate Hret.
  - destruct (first_failure_None _ _ _ Hfail)
      as (img & out & kept & Hf & Hi & He & Hu & Hw).
    unfold reports.
    rewrite (invert_image_success _ _ _ _ _ _ Hf Hi He Hu Hw).
    split.
    + split; reflexivity.
    + exists kept. unfold saved_image.
      cbn [snd files with_line with_files].
      rewrite lookup_insert_eq. reflexivity.
Qed.

(** C10. If a file-not-found error is raised anywhere inside the
    operation, when the output is saved as well as when the input is
    opened, the program prints the fixed "logo.png not found" message and
    ends with exit status 1, also when the input file exists and was
    decoded. *)
Theorem any_file_not_found_reported
        (input_path output_path : string) (w : world) (e : exception) :
  first_failure input_path output_path w = Some e ->
  exc_type e = FileNotFoundError ->
  reports input_path output_path w not_found_message 1.
Proof.
  intros Hfail He.
  unfold reports. rewrite (invert_image_failure _ _ _ _ Hfail).
  rewrite bool_decide_eq_true_2 by exact He.
  split; reflexivity.
Qed.

(** ** Where the claims as first stated fail, or the code fails them *)

(** C2 as stated: a grey image with an alpha band ("LA") has an alpha
    channel when it is loaded; it is converted to "RGB", and the saved
    output has no alpha band at all. *)
Lemma alpha_lost_on_grey_alpha :
  files (world_with grey_alpha_1x1) !! "/d/logo.png"
  = Some (Picture grey_alpha_1x1)
  /\ valid_image grey_alpha_1x1 = true
  /\ alpha_band grey_alpha_1x1 = Some [50]
  /\ saved_image
       (snd (invert_image "/d/logo.png" "/d/logo_inverted.png"
               (world_with grey_alpha_1x1)))
       "/d/logo_inverted.png"
     = Some (Image.mk RGB (1, 1)%nat [[155]; [155]; [155]])
  /\ ~ alpha_kept "/d/logo.png" "/d/logo_inverted.png"
         (world_with grey_alpha_1x1) [50].
Proof.
  split; [vm_compute; reflexivity|].
  split; [vm_compute; reflexivity|].
  split; [reflexivity|].
  split; [vm_compute; reflexivity|].
  intros (out & Hs & Ha).
  vm_compute in Hs. injection Hs as <-.
  discriminate Ha.
Qed.

(** C3 as stated: an input that is there and may not be read is not
    reported by the fixed message; the program prints the description of
    the permission error. *)
Lemma unreadable_input_not_reported_as_missing :
  input_unavailable "/d/logo.png" world_denied
  /\ reports "/d/logo.png" "/d/logo_inverted.png" world_denied
             "Error: [Errno 13] Permission denied: '/d/logo.png'" 1
  /\ ~ reports "/d/logo.png" "/d/logo_inverted.png" world_denied
               not_found_message 1.
Proof.
  split; [vm_compute; exact I|].
  split; [split; vm_compute; reflexivity|].
  intros [Hline _]. vm_compute in Hline. discriminate Hline.
Qed.

(** C8, where the code departs from it: the input exists and is decoded,
    and the directory of the output path does not exist. This write
    failure is not reported by its description: the program prints the
    fixed "logo.png not found" message. The same run with an output
    directory that may not be written, a write failure too, is reported by
    its description. *)
Lemma write_failure_not_described :
  files world_no_out_dir !! "/d/logo.png" = Some (Picture rgba_2x1)
  /\ first_failure "/d/logo.png" "/out/logo_inverted.png" world_no_out_dir
     = Some no_output_directory
  /\ reports "/d/logo.png" "/out/logo_inverted.png" world_no_out_dir
             not_found_message 1
  /\ ~ reports "/d/logo.png" "/out/logo_inverted.png" world_no_out_dir
               ("Error: " +:+ exc_str no_output_directory) 1
  /\ first_failure "/d/logo.png" "/out/logo_inverted.png" world_out_denied
     = Some output_denied
  /\ reports "/d/logo.png" "/out/logo_inverted.png" world_out_denied
             ("Error: " +:+ exc_str output_denied) 1.
Proof.
  split; [vm_compute; reflexivity|].
  split; [vm_compute; reflexivity|].
  split; [split; vm_compute; reflexivity|].
  split.
  { intros [Hline _]. vm_compute in Hline. discriminate Hline. }
  split; [vm_compute; reflexivity|].
  split; vm_compute; reflexivity.
Qed.

(** ** The theorems at concrete inputs *)

Lemma colour_samples_inverted_witness :
  exists n out,
    normalised rgba_2x1 = Ok n
    /\ saved_image
         (snd (invert_image "/d/logo.png" "/d/logo_inverted.png"
                 (world_with rgba_2x1)))
         "/d/logo_inverted.png"
       = Some out
    /\ Image.mode out = Image.mode n
    /\ colour_bands out = map inv_band (colour_bands n).
Proof.
  apply (colour_samples_inverted "/d/logo.png" "/d/logo_inverted.png"
           (world_with rgba_2x1) rgba_2x1);
    vm_compute; reflexivity.
Defined.

Lemma alpha_preserved_RGBA_witness :
  exists a,
    alpha_band rgba_2x1 = Some a
    /\ alpha_kept "/d/logo.png" "/d/logo_inverted.png"
                  (world_with rgba_2x1) a.
Proof.
  apply (alpha_preserved_RGBA "/d/logo.png" "/d/logo_inverted.png"
           (world_with rgba_2x1) rgba_2x1);
    vm_compute; reflexivity.
Defined.

Lemma missing_input_reported_witness :
  reports "/d/logo.png" "/d/logo_inverted.png" world_without_input
          not_found_message 1
  /\ reports "/d/logo.png" "/d/logo_inverted.png" world_denied
             ("Error: " +:+ exc_str permission_denied) 1.
Proof.
  split.
  - apply (proj1 (missing_input_reported "/d/logo.png" "/d/logo_inverted.png"
                    world_without_input)).
    vm_compute; reflexivity.
  - apply (proj2 (missing_input_reported "/d/logo.png" "/d/logo_inverted.png"
                    world_denied) permission_denied).
    + vm_compute; reflexivity.
    + discriminate.
Defined.

Lemma other_modes_converted_to_RGB_witness :
  exists n out,
    Image.convert_RGB grey_2x1 = Ok n
    /\ Image.mode n = RGB
    /\ inverted_of grey_2x1 = ImageOps.invert n
    /\ saved_image
         (snd (invert_image "/d/logo.png" "/d/logo_inverted.png"
                 (world_with grey_2x1)))
         "/d/logo_inverted.png"
       = Some out
    /\ Image.mode out = RGB
    /\ length (Image.bands out) = 3%nat
    /\ (forall l, Image.mode grey_2x1 = L -> Image.bands grey_2x1 = [l] ->
          Image.bands out = [inv_band l; inv_band l; inv_band l]).
Proof.
  apply (other_modes_converted_to_RGB "/d/logo.png" "/d/logo_inverted.png"
           (world_with grey_2x1) grey_2x1);
    vm_compute; reflexivity.
Defined.

Lemma inverting_twice_restores_witness :
  exists out,
    inverted_of rgb_1x2 = Ok out
    /\ inverted_of out = Ok rgb_1x2
    /\ colour_bands out = map inv_band (colour_bands rgb_1x2)
    /\ alpha_band out = alpha_band rgb_1x2
    /\ saved_image
         (snd (invert_image "/d/logo_inverted.png" "/d/logo_twice.png"
                 (snd (invert_image "/d/logo.png" "/d/logo_inverted.png"
                         (world_with rgb_1x2)))))
         "/d/logo_twice.png"
       = Some rgb_1x2.
Proof.
  apply (inverting_twice_restores "/d/logo.png" "/d/logo_inverted.png"
           "/d/logo_twice.png" (world_with rgb_1x2) rgb_1x2);
    vm_compute; reflexivity.
Defined.

Lemma dimensions_preserved_witness :
  exists out,
    saved_image
      (snd (invert_image "/d/logo.png" "/d/logo_inverted.png"
              (world_with grey_alpha_1x1)))
      "/d/logo_inverted.png"
    = Some out
    /\ Image.width out = Image.width grey_alpha_1x1
    /\ Image.height out = Image.height grey_alpha_1x1
    /\ Forall (fun b =>
                 length b = (Image.width grey_alpha_1x1
                             * Image.height grey_alpha_1x1)%nat)
              (Image.bands out).
Proof.
  apply (dimensions_preserved "/d/logo.png" "/d/logo_inverted.png"
           (world_with grey_alpha_1x1) grey_alpha_1x1);
    vm_compute; reflexivity.
Defined.

Lemma success_reported_witness :
  reports "/d/logo.png" "/d/logo_inverted.png" (world_with rgb_1x2)
          ("Saved inverted image as: " +:+ "/d/logo_inverted.png") 0
  /\ exists out,
       saved_image
         (snd (invert_image "/d/logo.png" "/d/logo_inverted.png"
                 (world_with rgb_1x2)))
         "/d/logo_inverted.png"
       = Some out.
Proof.
  apply (success_reported "/d/logo.png" "/d/logo_inverted.png"
           (world_with rgb_1x2)).
  vm_compute; reflexivity.
Defined.

Lemma any_file_not_found_reported_witness :
  reports "/d/logo.png" "/out/logo_inverted.png" world_no_out_dir
          not_found_message 1.
Proof.
  apply (any_file_not_found_reported "/d/logo.png" "/out/logo_inverted.png"
           world_no_out_dir no_output_directory).
  - vm_compute; reflexivity.
  - reflexivity.
Defined.

(** * Further properties of [invert_image] and [main] *)

(** ** Helper lemmas *)

Lemma valid_image_intro (img : Image.Image) :
  (0 < Image.width img)%nat -> (0 < Image.height img)%nat ->
  length (Image.bands img) = getmodebands (Image.mode img) ->
  (forall b, In b (Image.bands img) ->
     length b = (Image.width img * Image.height img)%nat
     /\ eight_bit b = true) ->
  valid_image img = true.
Proof.
  intros Hw Hh Hn Hb. unfold valid_image.
  apply Nat.ltb_lt in Hw, Hh. rewrite Hw, Hh. cbn [andb].
  apply andb_true_intro. split.
  - apply bool_decide_eq_true_2. exact Hn.
  - apply forallb_forall. intros b Hin.
    destruct (Hb b Hin) as [Hl He].
    apply andb_true_intro. split; [|exact He].
    apply bool_decide_eq_true_2. exact Hl.
Qed.

(** What the in-memory part gives on a valid image: a valid image again,
    in mode "RGBA" for an "RGBA" input and in mode "RGB" otherwise, which
    inverts back to the normalised input. *)
Lemma inverted_of_valid_image (img : Image.Image) :
  valid_image img = true ->
  exists out n,
    inverted_of img = Ok out
    /\ normalised img = Ok n
    /\ inverted_of out = Ok n
    /\ valid_image out = true
    /\ Image.mode out = (if bool_decide (Image.mode img = RGBA)
                         then RGBA else RGB)
    /\ Image.size out = Image.size img.
Proof.
  intros Hv.
  pose proof (fun b => valid_image_lengths img b Hv) as Hlen.
  destruct (valid_image_positive img Hv) as [Hpw Hph].
  pose proof (valid_image_shaped img Hv) as Hs.
  destruct Hs as [sz l Hl | sz l a Hl Ha | sz r g b Hr Hg Hb
                 | sz r g b a Hr Hg Hb Ha];
    cbn [Image.bands Image.width Image.height Image.size In] in Hlen, Hpw, Hph.
  - exists (Image.mk RGB sz [inv_band l; inv_band l; inv_band l]),
           (Image.mk RGB sz [l; l; l]).
    split; [apply inverted_of_L; assumption|].
    split; [reflexivity|].
    split.
    { rewrite inverted_of_RGB by (apply inv_band_eight_bit; assumption).
      rewrite !inv_band_involutive. reflexivity. }
    split; [|split; reflexivity].
    apply valid_image_intro; [assumption | assumption | reflexivity|].
    cbn [Image.bands Image.width Image.height Image.size In].
    intros b0 [<- | [<- | [<- | []]]];
      rewrite inv_band_length;
      (split; [apply Hlen; tauto | apply inv_band_eight_bit; assumption]).
  - exists (Image.mk RGB sz [inv_band l; inv_band l; inv_band l]),
           (Image.mk RGB sz [l; l; l]).
    split; [apply inverted_of_LA; assumption|].
    split; [reflexivity|].
    split.
    { rewrite inverted_of_RGB by (apply inv_band_eight_bit; assumption).
      rewrite !inv_band_involutive. reflexivity. }
    split; [|split; reflexivity].
    apply valid_image_intro; [assumption | assumption | reflexivity|].
    cbn [Image.bands Image.width Image.height Image.size In].
    intros b0 [<- | [<- | [<- | []]]];
      rewrite inv_band_length;
      (split; [apply Hlen; tauto | apply inv_band_eight_bit; assumption]).
  - exists (Image.mk RGB sz [inv_band r; inv_band g; inv_band b]),
           (Image.mk RGB sz [r; g; b]).
    split; [apply inverted_of_RGB; assumption|].
    split; [reflexivity|].
    split.
    { rewrite inverted_of_RGB by (apply inv_band_eight_bit; assumption).
      rewrite !inv_band_involutive. reflexivity. }
    split; [|split; reflexivity].
    apply valid_image_intro; [assumption | assumption | reflexivity|].
    cbn [Image.bands Image.width Image.height Image.size In].
    intros b0 [<- | [<- | [<- | []]]];
      rewrite inv_band_length;
      (split; [apply Hlen; tauto | apply inv_band_eight_bit; assumption]).
  - exists (Image.mk RGBA sz [inv_band r; inv_band g; inv_band b; a]),
           (Image.mk RGBA sz [r; g; b; a]).
    split; [apply inverted_of_RGBA; assumption|].
    split; [reflexivity|].
    split.
    { rewrite inverted_of_RGBA by (apply inv_band_eight_bit; assumption).
      rewrite !inv_band_involutive. reflexivity. }
    split; [|split; reflexivity].
    apply valid_image_intro; [assumption | assumption | reflexivity|].
    cbn [Image.bands Image.width Image.height Image.size In].
    intros b0 [<- | [<- | [<- | [<- | []]]]];
      rewrite ?inv_band_length;
      (split; [apply Hlen; tauto
              | assumption || (apply inv_band_eight_bit; assumption)]).
Qed.

(** A failed write changes the output path only, and failing again
    changes nothing more. *)
Lemma failed_write_other (path other : string) (fs : gmap string entry) :
  other <> path -> failed_write path fs !! other = fs !! other.
Proof.
  intros Hne. unfold failed_write.
  destruct (fs !! path); [|reflexivity].
  apply lookup_insert_ne. congruence.
Qed.

Lemma failed_write_again (path : string) (fs : gmap string entry) :
  failed_write path (failed_write path fs) = failed_write path fs.
Proof.
  unfold failed_write. destruct (fs !! path) eqn:Hp.
  - rewrite lookup_insert_eq. apply insert_insert_eq.
  - rewrite Hp. reflexivity.
Qed.

(** A run changes the output path only. *)
Lemma files_after_other (input_path output_path : string) (w : world)
      (path : string) :
  path <> output_path ->
  files_after input_path output_path w !! path = files w !! path.
Proof.
  intros Hne. unfold files_after.
  destruct (files w !! input_path) as [[e0|img]|]; try reflexivity.
  destruct (inverted_of img) as [out|e1]; try reflexivity.
  destruct (encoder w output_path out) as [e|e|kept];
    destruct (unwritable w !! output_path) as [e0|];
    try destruct (write_errors w !! output_path) as [e2|];
    try reflexivity;
    try (apply failed_write_other; exact Hne).
  apply lookup_insert_ne. congruence.
Qed.

(** The world a run leaves gives the same run again, when the input is not
    the output. *)
Lemma run_again (input_path output_path : string) (w : world) (s : string) :
  input_path <> output_path ->
  first_failure input_path output_path
    (with_line (with_files w (files_after input_path output_path w)) s)
  = first_failure input_path output_path w
  /\ files_after input_path output_path
       (with_line (with_files w (files_after input_path output_path w)) s)
     = files_after input_path output_path w.
Proof.
  intros Hne.
  pose proof (files_after_other input_path output_path w input_path Hne)
    as Hp.
  remember (files_after input_path output_path w) as fs1 eqn:Hfs1.
  unfold first_failure, save_failure. unfold files_after at 1.
  cbn [files unwritable write_errors with_line with_files].
  change (encoder (with_line (with_files w fs1) s)) with (encoder w).
  rewrite Hp.
  unfold files_after in Hfs1.
  destruct (files w !! input_path) as [[e0|img]|].
  - subst fs1. split; reflexivity.
  - destruct (inverted_of img) as [out|e1].
    + destruct (encoder w output_path out) as [e|e|kept];
        destruct (unwritable w !! output_path) as [e0|];
        try destruct (write_errors w !! output_path) as [e2|];
        subst fs1; split; try reflexivity;
        try apply failed_write_again.
      apply insert_insert_eq.
    + subst fs1. split; reflexivity.
  - subst fs1. split; reflexivity.
Qed.

(** The two paths of [main] differ, whatever the working directory. *)
Lemma main_paths_differ (d : string) :
  os_path_join d "logo.png" <> os_path_join d "logo_inverted.png".
Proof.
  unfold os_path_join.
  change (String.prefix "/" "logo.png") with false.
  change (String.prefix "/" "logo_inverted.png") with false.
  cbv iota.
  destruct (bool_decide (d = "") || String.prefix "/" (String.rev d)).
  - intros H. apply (inj (String.append d)) in H. discriminate H.
  - intros H. apply (inj (String.append d)) in H. discriminate H.
Qed.

(** A path that ends in [logo_inverted.png] has the extension [.png],
    whatever comes before. *)
Lemma splitext_logo_inverted (d : string) (seen : bool) (ext : string) :
  splitext_from seen ext (d +:+ "logo_inverted.png") = ".png"
  /\ splitext_from seen ext (d +:+ "/logo_inverted.png") = ".png".
Proof.
  revert seen ext. induction d as [|c d IH]; intros seen ext.
  - split; reflexivity.
  - change (String c d +:+ "logo_inverted.png")
      with (String c (d +:+ "logo_inverted.png")).
    change (String c d +:+ "/logo_inverted.png")
      with (String c (d +:+ "/logo_inverted.png")).
    cbn [splitext_from].
    destruct (Ascii.eqb c "/"); [apply IH|].
    destruct (Ascii.eqb c "."); [destruct seen; apply IH|].
    apply IH.
Qed.

(** [main] writes a PNG file, whatever the working directory. *)
Lemma main_output_png (d : string) :
  file_extension (os_path_join d "logo_inverted.png") = ".png".
Proof.
  unfold file_extension, os_path_join.
  change (String.prefix "/" "logo_inverted.png") with false. cbv iota.
  destruct (bool_decide (d = "") || String.prefix "/" (String.rev d)).
  - rewrite (proj1 (splitext_logo_inverted d false "")). reflexivity.
  - change (d +:+ "/" +:+ "logo_inverted.png")
      with (d +:+ "/logo_inverted.png").
    rewrite (proj2 (splitext_logo_inverted d false "")). reflexivity.
Qed.

(** A second run with the same paths, the input not being the output. *)
Lemma invert_image_rerun (input_path output_path : string) (w : world) :
  input_path <> output_path ->
  exists line,
    stdout (snd (invert_image input_path output_path w))
    = stdout w ++ [line]
    /\ invert_image input_path output_path
         (snd (invert_image input_path output_path w))
       = (fst (invert_image input_path output_path w),
          with_line (snd (invert_image input_path output_path w)) line).
Proof.
  intros Hne.
  exists (line_after input_path output_path w).
  rewrite (invert_image_run input_path output_path w). cbn [fst snd].
  split; [reflexivity|].
  set (line := line_after input_path output_path w).
  destruct (run_again input_path output_path w line Hne) as [Hfail Hfiles].
  rewrite invert_image_run. unfold line_after. rewrite Hfail, Hfiles.
  subst line. unfold line_after. reflexivity.
Qed.


(** The line of the second handler starts with "Error: ". *)
Lemma error_line_prefix (s : string) :
  String.prefix "Error: " ("Error: " +:+ s) = true.
Proof. simpl. destruct s; reflexivity. Qed.

(** ** Properties *)



(** X3. [main] never overwrites its input: for every working directory the
    path it reads, [logo.png], differs from the path it writes,
    [logo_inverted.png], and holds after the run what it held before. *)
Theorem main_keeps_input (w : world) :
  os_path_join (cwd w) "logo.png" <> os_path_join (cwd w) "logo_inverted.png"
  /\ files (snd (main w)) !! os_path_join (cwd w) "logo.png"
     = files w !! os_path_join (cwd w) "logo.png".
Proof.
  split; [apply main_paths_differ|].
  rewrite main_unfold, invert_image_run.
  cbn [snd files with_line with_files].
  apply files_after_other. apply main_paths_differ.
Qed.

(** X4. Running the program again changes nothing but standard output: the
    second run of [main] ends as the first did, prints the same line again,
    and leaves the files as the first run left them. *)
Theorem main_rerun_same (w : world) :
  fst (main (snd (main w))) = fst (main w)
  /\ files (snd (main (snd (main w)))) = files (snd (main w))
  /\ exists line,
       stdout (snd (main w)) = stdout w ++ [line]
       /\ stdout (snd (main (snd (main w)))) = stdout w ++ [line; line].
Proof.
  destruct (invert_image_rerun (os_path_join (cwd w) "logo.png")
              (os_path_join (cwd w) "logo_inverted.png") w
              (main_paths_differ (cwd w))) as (line & Hout & Hagain).
  assert (Hcwd : cwd (snd (main w)) = cwd w).
  { rewrite main_unfold, invert_image_run. reflexivity. }
  rewrite (main_unfold (snd (main w))), Hcwd.
  rewrite (main_unfold w) in *.
  rewrite Hagain. cbn [fst snd with_line files stdout].
  split; [reflexivity|]. split; [reflexivity|].
  exists line. split; [exact Hout|].
  rewrite Hout, <- app_assoc. reflexivity.
Qed.

(** X5. A valid image at the input path and a PNG output path that can be
    written are enough for the run to succeed: [invert_image] returns, the
    exit status is 0, and the saved image is again a valid image, of the
    size of the input, in mode "RGBA" when the input was "RGBA" and in mode
    "RGB" for every other input mode. *)
Theorem valid_run_succeeds
        (input_path output_path : string) (w : world) (img : Image.Image) :
  files w !! input_path = Some (Picture img) ->
  valid_image img = true ->
  file_extension output_path = ".png" ->
  unwritable w !! output_path = None ->
  write_errors w !! output_path = None ->
  fst (invert_image input_path output_path w) = Returns tt
  /\ exit_status (fst (invert_image input_path output_path w)) = 0
  /\ exists out,
       saved_image (snd (invert_image input_path output_path w)) output_path
       = Some out
       /\ valid_image out = true
       /\ Image.size out = Image.size img
       /\ Image.mode out = (if bool_decide (Image.mode img = RGBA)
                            then RGBA else RGB).
Proof.
  intros Hf Hv Hext Hu Hw.
  destruct (inverted_of_valid_image img Hv)
    as (out & n & Hi & _ & _ & Hvo & Hmode & Hsize).
  pose proof (saved_after_success _ _ _ _ _ Hf Hi Hext Hu Hw) as Hsaved.
  rewrite (invert_image_success _ _ _ _ _ _ Hf Hi (encoder_png _ _ _ Hext)
             Hu Hw) in *.
  cbn [fst snd] in *.
  split; [reflexivity|]. split; [reflexivity|].
  exists out. repeat split; assumption.
Qed.

(** X6. Inverting twice gives the normalised input, for every mode: two
    runs in a row through PNG files, the second reading what the first
    wrote, leave the image that entered the first inversion, that is the
    input itself for "RGB" and "RGBA" and its conversion to "RGB" (grey on
    three bands, alpha dropped) for the other modes. *)
Theorem inverting_twice_normalises
        (input_path mid_path output_path : string) (w : world)
        (img : Image.Image) :
  files w !! input_path = Some (Picture img) ->
  valid_image img = true ->
  file_extension mid_path = ".png" ->
  unwritable w !! mid_path = None ->
  write_errors w !! mid_path = None ->
  file_extension output_path = ".png" ->
  unwritable w !! output_path = None ->
  write_errors w !! output_path = None ->
  exists n,
    normalised img = Ok n
    /\ saved_image
         (snd (invert_image mid_path output_path
                 (snd (invert_image input_path mid_path w))))
         output_path
       = Some n
    /\ (mode_in (Image.mode img) [RGB; RGBA] = true -> n = img)
    /\ (mode_in (Image.mode img) [RGB; RGBA] = false ->
        Image.convert_RGB img = Ok n).
Proof.
  intros Hf Hv He1 Hu1 Hw1 He2 Hu2 Hw2.
  destruct (inverted_of_valid_image img Hv)
    as (out & n & H1 & Hn & H2 & _ & _ & _).
  exists n. split; [exact Hn|]. split.
  - apply (saved_after_two_runs _ _ _ _ img out n); assumption.
  - unfold normalised in Hn. split; intros Hm; rewrite Hm in Hn.
    + injection Hn as <-. reflexivity.
    + exact Hn.
Qed.

(** X7. The printed line tells how the run ended: every failure line
    starts with "Error: " and goes with exit status 1, and the only other
    line is the success message, which goes with exit status 0. *)
Theorem printed_line_tells_status
        (input_path output_path : string) (w : world) :
  exists line,
    stdout (snd (invert_image input_path output_path w)) = stdout w ++ [line]
    /\ exit_status (fst (invert_image input_path output_path w))
       = (if String.prefix "Error: " line then 1 else 0)
    /\ (String.prefix "Error: " line = false ->
        line = "Saved inverted image as: " +:+ output_path).
Proof.
  destruct (first_failure input_path output_path w) as [e|] eqn:Hfail.
  - rewrite (invert_image_failure _ _ _ _ Hfail). cbn [fst snd].
    eexists. split; [reflexivity|].
    destruct (bool_decide (exc_type e = FileNotFoundError)).
    + split; [reflexivity | discriminate].
    + rewrite error_line_prefix. split; [reflexivity | discriminate].
  - destruct (first_failure_None _ _ _ Hfail)
      as (img & out & kept & Hf & Hi & He & Hu & Hw).
    rewrite (invert_image_success _ _ _ _ _ _ Hf Hi He Hu Hw).
    cbn [fst snd].
    eexists. split; [reflexivity|].
    split; reflexivity.
Qed.

(** X8. For every failure whose exception is not a file-not-found error
    (decode error, permission refused, a mode or an extension the encoder
    does not take, disk full), the program prints "Error: " followed by
    the description of the exception and ends with exit status 1. *)
Theorem other_failures_described
        (input_path output_path : string) (w : world) (e : exception) :
  first_failure input_path output_path w = Some e ->
  exc_type e <> FileNotFoundError ->
  reports input_path output_path w ("Error: " +:+ exc_str e) 1.
Proof.
  intros Hfail Hne.
  unfold reports. rewrite (invert_image_failure _ _ _ _ Hfail).
  rewrite bool_decide_eq_false_2 by exact Hne.
  split; reflexivity.
Qed.

(** X9. An encoder that refuses the inverted image does so after [save]
    has opened the output path: the run ends with exit status 1 and a file
    that was at the output path has lost its picture. *)
Theorem refused_image_costs_old_output
        (input_path output_path : string) (w : world)
        (img out : Image.Image) (e : exception) (old : entry) :
  files w !! input_path = Some (Picture img) ->
  inverted_of img = Ok out ->
  encoder w output_path out = Refused e ->
  unwritable w !! output_path = None ->
  files w !! output_path = Some old ->
  exit_status (fst (invert_image input_path output_path w)) = 1
  /\ is_Some (files (snd (invert_image input_path output_path w))
              !! output_path)
  /\ saved_image (snd (invert_image input_path output_path w)) output_path
     = None.
Proof.
  intros Hf Hi He Hu Hold.
  rewrite invert_image_run.
  unfold first_failure, save_failure, files_after, saved_image.
  rewrite Hf, Hi, He, Hu.
  cbn [fst snd exit_status files with_line with_files].
  unfold failed_write. rewrite Hold, lookup_insert_eq.
  split; [reflexivity|]. split; [eexists; reflexivity | reflexivity].
Qed.

(** X10. [main] saves a PNG file, whatever the working directory: with a
    valid image in [logo.png] and a [logo_inverted.png] that can be
    written, the program returns with exit status 0 and
    [logo_inverted.png] holds the inverted image itself, sample for
    sample. *)
Theorem main_saves_inverted_png (w : world) (img : Image.Image) :
  files w !! os_path_join (cwd w) "logo.png" = Some (Picture img) ->
  valid_image img = true ->
  unwritable w !! os_path_join (cwd w) "logo_inverted.png" = None ->
  write_errors w !! os_path_join (cwd w) "logo_inverted.png" = None ->
  file_extension (os_path_join (cwd w) "logo_inverted.png") = ".png"
  /\ exit_status (fst (main w)) = 0
  /\ exists out,
       inverted_of img = Ok out
       /\ saved_image (snd (main w))
                      (os_path_join (cwd w) "logo_inverted.png")
          = Some out.
Proof.
  intros Hf Hv Hu Hw.
  pose proof (main_output_png (cwd w)) as Hext.
  destruct (inverted_of_valid_image img Hv) as (out & n & Hi & _).
  split; [exact Hext|].
  rewrite main_unfold.
  split.
  - rewrite (invert_image_success _ _ _ _ _ _ Hf Hi (encoder_png _ _ _ Hext)
               Hu Hw).
    reflexivity.
  - exists out. split; [exact Hi|].
    apply (saved_after_success _ _ _ _ _ Hf Hi Hext Hu Hw).
Qed.

(** ** The further properties at concrete inputs *)


Lemma valid_run_succeeds_witness :
  fst (invert_image "/d/logo.png" "/d/logo_inverted.png"
         (world_with grey_alpha_1x1)) = Returns tt
  /\ exit_status (fst (invert_image "/d/logo.png" "/d/logo_inverted.png"
                         (world_with grey_alpha_1x1))) = 0
  /\ exists out,
       saved_image
         (snd (invert_image "/d/logo.png" "/d/logo_inverted.png"
                 (world_with grey_alpha_1x1)))
         "/d/logo_inverted.png"
       = Some out
       /\ valid_image out = true
       /\ Image.size out = Image.size grey_alpha_1x1
       /\ Image.mode out = (if bool_decide (Image.mode grey_alpha_1x1 = RGBA)
                            then RGBA else RGB).
Proof.
  apply (valid_run_succeeds "/d/logo.png" "/d/logo_inverted.png"
           (world_with grey_alpha_1x1) grey_alpha_1x1);
    vm_compute; reflexivity.
Defined.

Lemma inverting_twice_normalises_witness :
  exists n,
    normalised grey_2x1 = Ok n
    /\ saved_image
         (snd (invert_image "/d/logo_inverted.png" "/d/logo_twice.png"
                 (snd (invert_image "/d/logo.png" "/d/logo_inverted.png"
                         (world_with grey_2x1)))))
         "/d/logo_twice.png"
       = Some n
    /\ (mode_in (Image.mode grey_2x1) [RGB; RGBA] = true -> n = grey_2x1)
    /\ (mode_in (Image.mode grey_2x1) [RGB; RGBA] = false ->
        Image.convert_RGB grey_2x1 = Ok n).
Proof.
  apply (inverting_twice_normalises "/d/logo.png" "/d/logo_inverted.png"
           "/d/logo_twice.png" (world_with grey_2x1) grey_2x1);
    vm_compute; reflexivity.
Defined.

Lemma other_failures_described_witness :
  reports "/d/logo.png" "/d/logo_inverted.png" world_denied
          ("Error: " +:+ exc_str permission_denied) 1.
Proof.
  apply (other_failures_described "/d/logo.png" "/d/logo_inverted.png"
           world_denied permission_denied).
  - vm_compute; reflexivity.
  - discriminate.
Defined.

Lemma refused_image_costs_old_output_witness :
  exit_status (fst (invert_image "/d/logo.png" "/d/out.jpg"
                      world_with_old_jpeg)) = 1
  /\ is_Some (files (snd (invert_image "/d/logo.png" "/d/out.jpg"
                            world_with_old_jpeg)) !! "/d/out.jpg")
  /\ saved_image (snd (invert_image "/d/logo.png" "/d/out.jpg"
                         world_with_old_jpeg)) "/d/out.jpg"
     = None.
Proof.
  apply (refused_image_costs_old_output "/d/logo.png" "/d/out.jpg"
           world_with_old_jpeg rgba_2x1
           (Image.mk RGBA (2, 1)%nat
              [[245; 255]; [235; 0]; [225; 127]; [255; 0]])
           (mkExc OSError "cannot write mode RGBA as JPEG")
           (Picture rgb_1x2));
    vm_compute; reflexivity.
Defined.

Lemma main_saves_inverted_png_witness :
  file_extension (os_path_join (cwd (world_with rgba_2x1))
                               "logo_inverted.png") = ".png"
  /\ exit_status (fst (main (world_with rgba_2x1))) = 0
  /\ exists out,
       inverted_of rgba_2x1 = Ok out
       /\ saved_image (snd (main (world_with rgba_2x1)))
                      (os_path_join (cwd (world_with rgba_2x1))
                                    "logo_inverted.png")
          = Some out.
Proof.
  apply (main_saves_inverted_png (world_with rgba_2x1) rgba_2x1);
    vm_compute; reflexivity.
Defined.
